(** * pushstate: the file-backed check-sum cache (fileCacher.go)

    A shallow embedding of [FileCache] and of its operations, and the
    properties of its change detection, dirty tracking and durable writes.

    The repository holds two revisions of fileCacher.go.  They differ in
    three places that matter here: the later one has a constructor
    ([NewFileCache]), its [getCache] also replaces the mutex when the table
    is nil, and its [saveToFile] ends with a best-effort chmod.  The
    embedding is parametrised by the revision. *)

From stdpp Require Import base strings gmap list pretty.

(** ** Data *)

Inductive Revision := Original | Revised.

(** [FileCache]: the fields [CheckSum]/[checkSum] and [Logger]/[log] are
    collaborators (parameters of the section below); [cacheLock] shows up
    as lock events.  A nil [stateCache] is [None]. *)
Record FileCache := mkFileCache {
  filename : string;
  stateCache : option (gmap string string);
  isDirty : bool
}.

(** The [error] values the operations return, one per [fmt.Errorf]. *)
Inductive error :=
| ErrTempFile   (* create temporary file failed *)
| ErrEncode     (* encode to ... failed *)
| ErrClose      (* close ... failed *)
| ErrRename     (* rename ... failed *)
| ErrOpen       (* open ... failed *)
| ErrDecode.    (* decode state-file ... failed *)

(** What [json.NewDecoder(f).Decode(&cache)] answers. *)
Inductive Decoded :=
| DecOk (cache : gmap string string)
| DecEOF        (* io.EOF: nothing but blanks before the end of the file *)
| DecErr.       (* any other error *)

(** ** Events: what an operation does, in order *)

Inductive Syscall :=
| SysTempFile | SysWrite | SysClose | SysRemove | SysRename | SysChmod
| SysOpen | SysRead.

Inductive Event :=
| EvLock                       (* fc.cacheLock.Lock() *)
| EvUnlock                     (* the deferred fc.cacheLock.Unlock() *)
| EvNewMutex                   (* fc.cacheLock = &sync.Mutex{} *)
| EvLoadCache                  (* the table is read *)
| EvStoreCache                 (* the table is written or replaced *)
| EvLoadDirty                  (* fc.isDirty is read *)
| EvStoreDirty (b : bool)      (* fc.isDirty = b *)
| EvSys (c : Syscall) (path : string) (ok : bool).
                               (* a call on a file, and whether it worked *)

Global Instance Syscall_eq_dec : EqDecision Syscall.
Proof. solve_decision. Defined.
Global Instance Event_eq_dec : EqDecision Event.
Proof. solve_decision. Defined.
Global Instance error_eq_dec : EqDecision error.
Proof. solve_decision. Defined.

(** ** The world an operation runs in *)

(** The store object and the files of the directory (path to contents). *)
Record World := mkWorld {
  fc : FileCache;
  disk : gmap string string
}.

(** What the operating system answers during one call: which steps fail.
    Only the steps whose error the code looks at can fail here; the
    clean-up calls whose result the code drops ([_ = tmpFile.Close()],
    [_ = os.Remove(...)]) are taken to do their work. *)
Record Env := mkEnv {
  tmp_err : bool;          (* TempFile fails, not because of a name clash *)
  tmp_rand : list N;       (* the random numbers TempFile draws, in order *)
  write_err : option nat;  (* Encode's write fails after that many bytes *)
  close_err : bool;
  rename_err : bool;
  chmod_err : bool;
  open_err : bool;
  read_err : bool
}.

(** ** A state monad that keeps the trace *)

Definition M (A : Type) : Type := World → A * World * list Event.

Definition ret {A} (a : A) : M A := λ w, (a, w, []).

Definition bind {A B} (m : M A) (k : A → M B) : M B := λ w,
  let '(a, w1, t1) := m w in
  let '(b, w2, t2) := k a w1 in
  (b, w2, t1 ++ t2).

Declare Scope go_scope.
Delimit Scope go_scope with go.
Notation "x <- c1 ;; c2" := (bind c1 (λ x, c2))
  (at level 20, c1 at level 99, c2 at level 200, only parsing) : go_scope.
Notation "c1 ;; c2" := (bind c1 (λ _, c2))
  (at level 100, c2 at level 200, only parsing) : go_scope.
Local Open Scope go_scope.

Definition result {A} (r : A * World * list Event) : A := r.1.1.
Definition after {A} (r : A * World * list Event) : World := r.1.2.
Definition trace {A} (r : A * World * list Event) : list Event := r.2.

Definition emit (e : Event) : M unit := λ w, (tt, w, [e]).

Definition load_stateCache : M (option (gmap string string)) := λ w,
  (stateCache (fc w), w, [EvLoadCache]).
Definition store_stateCache (c : gmap string string) : M unit := λ w,
  (tt,
   mkWorld (mkFileCache (filename (fc w)) (Some c) (isDirty (fc w))) (disk w),
   [EvStoreCache]).
Definition load_isDirty : M bool := λ w,
  (isDirty (fc w), w, [EvLoadDirty]).
Definition store_isDirty (b : bool) : M unit := λ w,
  (tt,
   mkWorld (mkFileCache (filename (fc w)) (stateCache (fc w)) b) (disk w),
   [EvStoreDirty b]).
(** [fc.filename] is set once, at construction. *)
Definition get_filename : M string := λ w, (filename (fc w), w, []).

(** [Lock(); defer Unlock()] around a body that does not panic. *)
Definition locked {A} (body : M A) : M A :=
  emit EvLock ;; r <- body ;; emit EvUnlock ;; ret r.

(** ** The file system calls *)

(** The first [n] bytes of [s]. *)
Fixpoint take_bytes (n : nat) (s : string) : string :=
  match n, s with
  | S n', String a s' => String a (take_bytes n' s')
  | _, _ => ""
  end.

(** [ioutil.TempFile(filepath.Dir(f), filepath.Base(f))] opens, with O_EXCL,
    a file named after [f] followed by a random number, and draws again
    when that name is taken. *)
Fixpoint first_free (d : gmap string string) (prefix : string)
    (draws : list N) : option string :=
  match draws with
  | [] => None
  | n :: rest =>
      let name := prefix +:+ pretty n in
      match d !! name with
      | None => Some name
      | Some _ => first_free d prefix rest
      end
  end.

Definition TempFile (e : Env) (f : string) : M (option string) := λ w,
  if tmp_err e then (None, w, [EvSys SysTempFile f false])
  else match first_free (disk w) f (tmp_rand e) with
       | None => (None, w, [EvSys SysTempFile f false])
       | Some tmp =>
           (Some tmp, mkWorld (fc w) (<[tmp := ""]> (disk w)),
            [EvSys SysTempFile f true])
       end.

(** Writing [bytes] to the open temporary file; [false] is an error. *)
Definition Write (e : Env) (tmp bytes : string) : M bool := λ w,
  match write_err e with
  | Some n =>
      (false, mkWorld (fc w) (<[tmp := take_bytes n bytes]> (disk w)),
       [EvSys SysWrite tmp false])
  | None =>
      (true, mkWorld (fc w) (<[tmp := bytes]> (disk w)),
       [EvSys SysWrite tmp true])
  end.

Definition Close (e : Env) (tmp : string) : M bool := λ w,
  (negb (close_err e), w, [EvSys SysClose tmp (negb (close_err e))]).

Definition Remove (path : string) : M unit := λ w,
  (tt, mkWorld (fc w) (delete path (disk w)), [EvSys SysRemove path true]).

(** [os.Rename]: the new name gets the file, in one step, or nothing
    happens. *)
Definition Rename (e : Env) (old new : string) : M bool := λ w,
  if rename_err e then (false, w, [EvSys SysRename new false])
  else match disk w !! old with
       | None => (false, w, [EvSys SysRename new false])
       | Some bytes =>
           (true, mkWorld (fc w) (<[new := bytes]> (delete old (disk w))),
            [EvSys SysRename new true])
       end.

Definition Chmod (e : Env) (path : string) : M bool := λ w,
  (negb (chmod_err e), w, [EvSys SysChmod path (negb (chmod_err e))]).

(** [os.OpenFile(f, os.O_CREATE|os.O_RDONLY, 0644)]: a missing file is
    created, empty.  The answer is the contents a reader will see. *)
Definition OpenFile (e : Env) (f : string) : M (option string) := λ w,
  if open_err e then (None, w, [EvSys SysOpen f false])
  else match disk w !! f with
       | Some bytes => (Some bytes, w, [EvSys SysOpen f true])
       | None =>
           (Some "", mkWorld (fc w) (<[f := ""]> (disk w)),
            [EvSys SysOpen f true])
       end.

(** ** Reading a trace *)

(** The lock discipline: every access to the table, to the dirty flag and
    to the files happens between a [Lock] and its [Unlock], the mutex is
    never replaced, and the lock is free at the end. *)
Fixpoint guarded_from (held : bool) (t : list Event) : bool :=
  match t with
  | [] => negb held
  | EvLock :: t' => negb held && guarded_from true t'
  | EvUnlock :: t' => held && guarded_from false t'
  | EvNewMutex :: _ => false
  | _ :: t' => held && guarded_from held t'
  end.

Definition guarded (t : list Event) : bool := guarded_from false t.

Definition is_sys (ev : Event) : bool :=
  match ev with EvSys _ _ _ => true | _ => false end.

(** The calls on files of a trace. *)
Definition file_io (t : list Event) : list Event := List.filter is_sys t.

Definition is_commit (ev : Event) : bool :=
  match ev with EvSys SysRename _ true => true | _ => false end.

(** How many renames went through. *)
Definition commits (t : list Event) : nat := length (List.filter is_commit t).

(** Every [isDirty = false] comes right after a rename that went through,
    with at most the chmod and the replacement of the table ([Reset]) in
    between; [committed] says that this rename has just been seen. *)
Fixpoint clears_follow_commit (committed : bool) (t : list Event) : bool :=
  match t with
  | [] => true
  | EvSys SysRename _ true :: t' => clears_follow_commit true t'
  | EvSys SysChmod _ _ :: t' => clears_follow_commit committed t'
  | EvStoreCache :: t' => clears_follow_commit committed t'
  | EvStoreDirty false :: t' => committed && clears_follow_commit false t'
  | _ :: t' => clears_follow_commit false t'
  end.

(** The values stored into [isDirty], in order. *)
Fixpoint dirty_stores (t : list Event) : list bool :=
  match t with
  | [] => []
  | EvStoreDirty b :: t' => b :: dirty_stores t'
  | _ :: t' => dirty_stores t'
  end.

(** A Go [error] that is not nil. *)
Definition is_error (r : option error) : bool :=
  match r with Some _ => true | None => false end.

(** ** A small instance of the collaborators

    Cards with a body that may not serialise, an additive check-sum and a
    reader and writer of flat JSON objects: enough to run the operations
    on concrete stores. *)
Module Demo.

Record Card := mkCard {
  card_id : string;
  card_body : string;
  card_serialisable : bool
}.

Definition GetID (c : Card) : string := card_id c.

Definition encodeModel (c : Card) : option string :=
  if card_serialisable c
  then Some ("{" +:+ card_id c +:+ ":" +:+ card_body c +:+ "}")
  else None.

Fixpoint byte_sum (s : string) : N :=
  match s with
  | EmptyString => 0
  | String a s' => Ascii.N_of_ascii a + byte_sum s'
  end%N.

Definition SumBytes (b : string) : string := pretty (byte_sum b `mod` 65536)%N.

Definition quote : string := String (Ascii.ascii_of_nat 34) "".
Definition newline : string := String (Ascii.ascii_of_nat 10) "".

Fixpoint encodeEntries (l : list (string * string)) : string :=
  match l with
  | [] => ""
  | [(k, v)] => quote +:+ k +:+ quote +:+ ":" +:+ quote +:+ v +:+ quote
  | (k, v) :: rest =>
      quote +:+ k +:+ quote +:+ ":" +:+ quote +:+ v +:+ quote +:+ ","
      +:+ encodeEntries rest
  end.

Definition encodeCache (cache : gmap string string) : string :=
  "{" +:+ encodeEntries (map_to_list cache) +:+ "}" +:+ newline.

Inductive Parsing :=
| PStart                       (* before the opening brace *)
| PKey                         (* a key or the closing brace comes next *)
| PInKey (k : string)
| PColon (k : string)
| PValue (k : string)
| PInValue (k v : string)
| PNext.                       (* a comma or the closing brace comes next *)

Definition is_blank (a : Ascii.ascii) : bool :=
  let n := Ascii.nat_of_ascii a in
  Nat.eqb n 32 || Nat.eqb n 9 || Nat.eqb n 10 || Nat.eqb n 13.

Definition is_char (a : Ascii.ascii) (n : nat) : bool := Nat.eqb (Ascii.nat_of_ascii a) n.

Fixpoint parse (st : Parsing) (acc : gmap string string) (s : string)
    : Decoded :=
  match s with
  | EmptyString => match st with PStart => DecEOF | _ => DecErr end
  | String a rest =>
      match st with
      | PStart =>
          if is_blank a then parse PStart acc rest
          else if is_char a 123 then parse PKey acc rest
          else DecErr
      | PKey =>
          if is_char a 34 then parse (PInKey "") acc rest
          else if is_char a 125 then DecOk acc
          else DecErr
      | PInKey k =>
          if is_char a 34 then parse (PColon k) acc rest
          else parse (PInKey (k +:+ String a "")) acc rest
      | PColon k =>
          if is_char a 58 then parse (PValue k) acc rest else DecErr
      | PValue k =>
          if is_char a 34 then parse (PInValue k "") acc rest else DecErr
      | PInValue k v =>
          if is_char a 34 then parse PNext (<[k := v]> acc) rest
          else parse (PInValue k (v +:+ String a "")) acc rest
      | PNext =>
          if is_char a 44 then parse PKey acc rest
          else if is_char a 125 then DecOk acc
          else DecErr
      end
  end.

Definition decodeCache (bytes : string) : Decoded := parse PStart ∅ bytes.

(** No step fails; the random numbers are 7, 8, 9. *)
Definition calm : Env :=
  mkEnv false [7; 8; 9]%N None false false false false false.

(** A card, the same card edited, and a card that does not serialise. *)
Definition cardA : Card := mkCard "A" "v1" true.
Definition cardA' : Card := mkCard "A" "v2" true.
Definition cardX : Card := mkCard "X" "chan" false.

(** Creating the temporary file fails. *)
Definition no_temp : Env :=
  mkEnv true [7; 8; 9]%N None false false false false false.

(** The write into the temporary file fails after three bytes. *)
Definition short_write : Env :=
  mkEnv false [7; 8; 9]%N (Some 3) false false false false false.

(** Everything works up to the rename, which fails. *)
Definition no_rename : Env :=
  mkEnv false [7; 8; 9]%N None false true false false false.

(** A dirty store over the file "state", in a directory that holds a file
    of somebody else. *)
Definition beside_notes : World :=
  mkWorld (mkFileCache "state" (Some {["A" := "17"]}) true)
    {["notes" := "hello"]}.

(** A clean store whose file holds its table. *)
Definition synced : World :=
  mkWorld (mkFileCache "state" (Some {["A" := "17"]}) false)
    {["state" := encodeCache {["A" := "17"]}]}.

(** A store over the file "state" that holds an entry for "A" already,
    with nothing on disk yet. *)
Definition one_entry : World :=
  mkWorld (mkFileCache "state" (Some {["A" := "17"]}) false) ∅.

End Demo.

(** ** The operations of fileCacher.go *)

Section FileCacher.
(** Which of the two revisions of the file. *)
Variable rev : Revision.
(** [PushModel]: whatever the caller pushes; it has an identifier. *)
Context {Model : Type}.
Variable GetID : Model → string.
(** [json.NewEncoder(jsonBuf).Encode(v)] of an entity: its bytes, or an
    error. *)
Variable encodeModel : Model → option string.
(** [checksum.CheckSum.SumBytes]. *)
Variable SumBytes : string → string.
(** The bytes [json.NewEncoder(tmpFile).Encode(cache)] produces. *)
Variable encodeCache : gmap string string → string.
(** [json.NewDecoder(stateFile).Decode(&cache)] on the bytes of a file. *)
Variable decodeCache : string → Decoded.

Definition NewFileCache (sf : string) : FileCache :=
  mkFileCache sf (Some ∅) false.

Definition getCache : M (gmap string string) :=
  c <- load_stateCache ;;
  match c with
  | Some cache => ret cache
  | None =>
      match rev with
      | Revised => emit EvNewMutex
      | Original => ret tt
      end ;;
      store_stateCache ∅ ;;
      ret ∅
  end.

Definition makeCheckSum (v : Model) : string :=
  match encodeModel v with
  | None => ""
  | Some jsonBuf => SumBytes jsonBuf
  end.

(** Indexing a Go map: the zero value for a missing key. *)
Definition index (cache : gmap string string) (id : string) : string :=
  default "" (cache !! id).

Definition IsChanged (m : Model) : M bool :=
  locked (
    c <- getCache ;;
    if Nat.eqb (String.length (index c (GetID m))) 0 then ret true
    else
      c' <- getCache ;;
      let saved := index c' (GetID m) in
      let generated := makeCheckSum m in
      ret (bool_decide (saved ≠ generated))).

Definition Put (m : Model) : M unit :=
  locked (
    c <- getCache ;;
    store_stateCache (<[GetID m := makeCheckSum m]> c) ;;
    store_isDirty true).

(** [Decode] reads the open file and parses what it read. *)
Definition Decode (e : Env) (f bytes : string) : M Decoded := λ w,
  (if read_err e then DecErr else decodeCache bytes, w,
   [EvSys SysRead f (negb (read_err e))]).

Definition readFile (e : Env) (f : string)
    : M (error + gmap string string) :=
  stateFile <- OpenFile e f ;;
  match stateFile with
  | None => ret (inl ErrOpen)
  | Some bytes =>
      d <- Decode e f bytes ;;
      emit (EvSys SysClose f true) ;;
      match d with
      | DecErr => ret (inl ErrDecode)
      | DecEOF => ret (inr ∅)
      | DecOk cache => ret (inr cache)
      end
  end.

Definition Read (e : Env) : M (option error) :=
  locked (
    f <- get_filename ;;
    r <- readFile e f ;;
    match r with
    | inl err => ret (Some err)
    | inr cache => store_stateCache cache ;; ret None
    end).

Definition saveToFile (e : Env) (f : string) (cache : gmap string string)
    : M (option error) :=
  tmpFile <- TempFile e f ;;
  match tmpFile with
  | None => ret (Some ErrTempFile)
  | Some tmp =>
      encoded <- Write e tmp (encodeCache cache) ;;
      if negb encoded then
        emit (EvSys SysClose tmp true) ;;
        Remove tmp ;;
        ret (Some ErrEncode)
      else
        closed <- Close e tmp ;;
        if negb closed then
          Remove tmp ;;
          ret (Some ErrClose)
        else
          renamed <- Rename e tmp f ;;
          if negb renamed then ret (Some ErrRename)
          else
            match rev with
            | Revised => Chmod e f ;; ret None
            | Original => ret None
            end
  end.

Definition Save (e : Env) : M (option error) :=
  dirty <- load_isDirty ;;
  if negb dirty then ret None
  else
    locked (
      f <- get_filename ;;
      c <- getCache ;;
      r <- saveToFile e f c ;;
      match r with
      | Some err => ret (Some err)
      | None => store_isDirty false ;; ret None
      end).

Definition Size : M Z :=
  locked (c <- getCache ;; ret (Z.of_nat (size c))).

Definition Get (id : string) : M string :=
  locked (c <- getCache ;; ret (index c id)).

Definition Delete (e : Env) (id : string) : M (option error) :=
  locked (
    c <- getCache ;;
    store_stateCache (delete id c) ;;
    store_isDirty true ;;
    f <- get_filename ;;
    c' <- getCache ;;
    r <- saveToFile e f c' ;;
    match r with
    | Some err => ret (Some err)
    | None => store_isDirty false ;; ret None
    end).

Definition Reset (e : Env) : M (option error) :=
  locked (
    let cache : gmap string string := ∅ in
    store_isDirty true ;;
    f <- get_filename ;;
    r <- saveToFile e f cache ;;
    match r with
    | Some err => ret (Some err)
    | None =>
        store_stateCache cache ;;
        store_isDirty false ;;
        ret None
    end).

(** ** Views used by the statements *)

(** The table a store holds; a nil map has no entries. *)
Definition table (c : FileCache) : gmap string string :=
  default ∅ (stateCache c).

(** The persisted file of a store, if there is one. *)
Definition persisted (w : World) : option string :=
  disk w !! filename (fc w).


(** The public operations, to state what holds of each of them.
    [Dump] and [WriteTo] only stream the persisted file. *)
Inductive Op :=
| OpIsChanged (m : Model)
| OpPut (m : Model)
| OpRead
| OpSave
| OpSize
| OpGet (id : string)
| OpDelete (id : string)
| OpReset.

(** Running an operation; the answer kept is its [error], if it has
    one. *)
Definition run_op (e : Env) (o : Op) : M (option error) :=
  match o with
  | OpIsChanged m => IsChanged m ;; ret None
  | OpPut m => Put m ;; ret None
  | OpRead => Read e
  | OpSave => Save e
  | OpSize => Size ;; ret None
  | OpGet id => Get id ;; ret None
  | OpDelete id => Delete e id
  | OpReset => Reset e
  end.

(** ** The durable write, step by step *)

(** The temporary file [TempFile] creates, if it creates one. *)
Definition temp_name (e : Env) (d : gmap string string) (f : string)
    : option string :=
  if tmp_err e then None else first_free d f (tmp_rand e).

(** A step before the rename fails: creating the temporary file,
    encoding into it, or closing it. *)
Definition fails_before_rename (e : Env) (d : gmap string string)
    (f : string) : bool :=
  match temp_name e d f with
  | None => true
  | Some _ =>
      match write_err e with
      | Some _ => true
      | None => close_err e
      end
  end.

(** The durable write fails: a step up to and including the rename
    fails. *)
Definition write_fails (e : Env) (d : gmap string string) (f : string)
    : bool :=
  fails_before_rename e d f || rename_err e.

(** ** [Dump] and [WriteTo] *)

(** The errors of [Dump], one per [fmt.Errorf]. *)
Inductive dump_error :=
| DumpOpen      (* open ... failed *)
| DumpStat      (* stat ... failed *)
| DumpCopy.     (* copy ... to buffer failed *)

(** The errors of [WriteTo]: the open, or what [io.Copy] hands back, from
    the file or from the writer. *)
Inductive copy_error :=
| CopyOpen
| CopyRead
| CopyWrite.

(** [stateFile.Stat()]; it reads the open file's entry, and is logged as a
    read of the file. *)
Definition Stat (stat_err : bool) (f : string) : M bool := λ w,
  (negb stat_err, w, [EvSys SysRead f (negb stat_err)]).

(** [io.Copy(buf, stateFile)] into a buffer in memory: all the bytes, or a
    read error. *)
Definition CopyToBuffer (e : Env) (f bytes : string) : M (option string) :=
  λ w,
  (if read_err e then None else Some bytes, w,
   [EvSys SysRead f (negb (read_err e))]).

(** [Dump]; [stat_err] says whether the [Stat] fails.  The deferred close
    runs on every return after the open. *)
Definition Dump (e : Env) (stat_err : bool) : M (dump_error + string) :=
  locked (
    f <- get_filename ;;
    stateFile <- OpenFile e f ;;
    match stateFile with
    | None => ret (inl DumpOpen)
    | Some bytes =>
        stats <- Stat stat_err f ;;
        if negb stats then
          emit (EvSys SysClose f true) ;;
          ret (inl DumpStat)
        else
          buf <- CopyToBuffer e f bytes ;;
          emit (EvSys SysClose f true) ;;
          match buf with
          | None => ret (inl DumpCopy)
          | Some content => ret (inr content)
          end
    end).

(** [io.Copy(w, stateFile)] to the caller's writer.  [room] is how many
    bytes the writer takes before it fails ([None]: it never fails).  The
    answer is what the writer received, the count, and the error. *)
Definition CopyToWriter (e : Env) (room : option nat) (f bytes : string)
    : M (string * Z * option copy_error) := λ w,
  if read_err e then
    ("", 0%Z, Some CopyRead, w, [EvSys SysRead f false])
  else
    match room with
    | Some n =>
        if Nat.ltb n (String.length bytes) then
          (take_bytes n bytes, Z.of_nat n, Some CopyWrite, w,
           [EvSys SysRead f true])
        else
          (bytes, Z.of_nat (String.length bytes), None, w,
           [EvSys SysRead f true])
    | None =>
        (bytes, Z.of_nat (String.length bytes), None, w,
         [EvSys SysRead f true])
    end.

(** [WriteTo], of the later revision. *)
Definition WriteTo (e : Env) (room : option nat)
    : M (string * Z * option copy_error) :=
  locked (
    f <- get_filename ;;
    stateFile <- OpenFile e f ;;
    match stateFile with
    | None => ret ("", 0%Z, Some CopyOpen)
    | Some bytes =>
        r <- CopyToWriter e room f bytes ;;
        emit (EvSys SysClose f true) ;;
        ret r
    end).

(** ** More views for the statements *)

(** What a [Read] of the persisted file would put into the table, when it
    parses. *)
Definition loads (w : World) : option (gmap string string) :=
  match decodeCache (default "" (persisted w)) with
  | DecOk cache => Some cache
  | DecEOF => Some ∅
  | DecErr => None
  end.

(** The dirty flag is honest: when it is clear, the persisted file reads
    back as the table in memory. *)
Definition clean_matches (w : World) : Prop :=
  isDirty (fc w) = false → loads w = Some (table (fc w)).

(** The table an operation writes to the file, when it writes. *)
Definition written (o : Op) (w : World) : option (gmap string string) :=
  match o with
  | OpSave => if isDirty (fc w) then Some (table (fc w)) else None
  | OpDelete id => Some (delete id (table (fc w)))
  | OpReset => Some ∅
  | _ => None
  end.

(** The oracle with another answer for the chmod. *)
Definition with_chmod_err (b : bool) (e : Env) : Env :=
  mkEnv (tmp_err e) (tmp_rand e) (write_err e) (close_err e) (rename_err e)
    b (open_err e) (read_err e).

(** ** Auxiliary facts *)

Lemma pretty_N_go_nonempty (x : N) (s : string) :
  s ≠ "" → pretty_N_go x s ≠ "".
Proof.
  revert s. induction (N.lt_wf_0 x) as [x _ IH]; intros s Hs.
  destruct (decide (x = 0%N)) as [->|Hx].
  - by rewrite pretty_N_go_0.
  - rewrite pretty_N_go_step by lia. apply IH; [|done].
    apply N.div_lt; lia.
Qed.

Lemma pretty_N_nonempty (n : N) : pretty n ≠ "".
Proof.
  unfold pretty, pretty_N. case_decide; [done|].
  rewrite pretty_N_go_step by lia. by apply pretty_N_go_nonempty.
Qed.

Lemma append_nonempty_ne (p s : string) : s ≠ "" → p +:+ s ≠ p.
Proof.
  intros Hs. induction p as [|a p IH]; simpl; [done|].
  intros [=]. done.
Qed.

(** The name [TempFile] settles on is new, and is not the target. *)
Lemma first_free_fresh d f draws tmp :
  first_free d f draws = Some tmp → d !! tmp = None ∧ tmp ≠ f.
Proof.
  induction draws as [|n rest IH]; simpl; [done|].
  destruct (d !! (f +:+ pretty n)) eqn:E; [done|].
  intros [= <-]. split; [done|].
  apply append_nonempty_ne, pretty_N_nonempty.
Qed.

Lemma temp_name_fresh e d f tmp :
  temp_name e d f = Some tmp → d !! tmp = None ∧ tmp ≠ f.
Proof.
  unfold temp_name. destruct (tmp_err e); [done|]. apply first_free_fresh.
Qed.

Ltac run :=
  unfold result, after, trace, locked, bind, ret, emit, get_filename,
    load_isDirty, store_isDirty, load_stateCache, store_stateCache;
  cbn.

(** What [saveToFile] does, case by case. *)
Lemma saveToFile_run e f cache w :
  saveToFile e f cache w =
  match temp_name e (disk w) f with
  | None => (Some ErrTempFile, w, [EvSys SysTempFile f false])
  | Some tmp =>
      match write_err e with
      | Some _ =>
          (Some ErrEncode, mkWorld (fc w) (disk w),
           [EvSys SysTempFile f true; EvSys SysWrite tmp false;
            EvSys SysClose tmp true; EvSys SysRemove tmp true])
      | None =>
          if close_err e then
            (Some ErrClose, mkWorld (fc w) (disk w),
             [EvSys SysTempFile f true; EvSys SysWrite tmp true;
              EvSys SysClose tmp false; EvSys SysRemove tmp true])
          else if rename_err e then
            (Some ErrRename,
             mkWorld (fc w) (<[tmp := encodeCache cache]> (disk w)),
             [EvSys SysTempFile f true; EvSys SysWrite tmp true;
              EvSys SysClose tmp true; EvSys SysRename f false])
          else
            (None,
             mkWorld (fc w) (<[f := encodeCache cache]> (disk w)),
             [EvSys SysTempFile f true; EvSys SysWrite tmp true;
              EvSys SysClose tmp true; EvSys SysRename f true]
             ++ match rev with
                | Revised => [EvSys SysChmod f (negb (chmod_err e))]
                | Original => []
                end)
      end
  end.
Proof.
  unfold temp_name.
  unfold saveToFile, TempFile, Write, Close, Remove, Rename, Chmod. run.
  destruct (tmp_err e); [done|].
  destruct (first_free _ _ _) as [tmp|] eqn:Htmp; [|done]. cbn.
  apply first_free_fresh in Htmp as [Hnew Hne].
  destruct (write_err e); cbn.
  { by rewrite insert_insert_eq, delete_insert_id. }
  destruct (close_err e); cbn.
  { by rewrite insert_insert_eq, delete_insert_id. }
  destruct (rename_err e); cbn.
  { by rewrite insert_insert_eq. }
  rewrite lookup_insert_eq. cbn.
  rewrite insert_insert_eq, delete_insert_id by done.
  by destruct rev.
Qed.

(** ** C1: the durable write commits at the rename *)

(** C1. For every call of [saveToFile] (the durable write of [Save],
    [Delete] and [Reset]): when a step before the rename fails (creating
    the temporary file, encoding, or closing), the call returns an error,
    the directory is exactly as before the call (so the target file is
    untouched and no temporary file is left), and no rename went through;
    when only the rename fails, the call returns an error and the target
    is still untouched; otherwise the call returns no error, exactly one
    rename went through and the target holds the whole encoded table.
    The store object is never touched. *)
Theorem saveToFile_atomic e f cache w :
  let r := saveToFile e f cache w in
  fc (after r) = fc w ∧
  if fails_before_rename e (disk w) f then
    is_Some (result r) ∧
    disk (after r) = disk w ∧
    (∀ tmp, temp_name e (disk w) f = Some tmp →
            disk (after r) !! tmp = None) ∧
    commits (trace r) = 0
  else if rename_err e then
    is_Some (result r) ∧
    disk (after r) !! f = disk w !! f ∧
    commits (trace r) = 0
  else
    result r = None ∧
    disk (after r) = <[f := encodeCache cache]> (disk w) ∧
    commits (trace r) = 1.
Proof.
  cbv zeta. rewrite saveToFile_run. unfold fails_before_rename.
  destruct (temp_name e (disk w) f) as [tmp|] eqn:Htmp.
  2:{ repeat split; eauto. intros ? [=]. }
  apply temp_name_fresh in Htmp as [Hnew Hne].
  destruct (write_err e).
  { repeat split; eauto. by intros ? [= <-]. }
  destruct (close_err e).
  { repeat split; eauto. by intros ? [= <-]. }
  destruct (rename_err e).
  { repeat split; eauto. cbn. by rewrite lookup_insert_ne. }
  repeat split. by destruct rev.
Qed.

(** ** C2, C8, C10: change detection *)

Lemma index_empty_iff (cache : gmap string string) id :
  Nat.eqb (String.length (index cache id)) 0 = true ↔
  cache !! id = None ∨ cache !! id = Some "".
Proof.
  unfold index. destruct (cache !! id) as [[|a s]|]; cbn.
  - split; auto.
  - split; [done|]. by intros [|[=]].
  - split; auto.
Qed.

(** What [IsChanged] answers, and that it leaves the store as it was but
    for turning a nil table into an empty one. *)
Lemma IsChanged_run m w :
  result (IsChanged m w) =
    (Nat.eqb (String.length (index (table (fc w)) (GetID m))) 0
     || bool_decide (index (table (fc w)) (GetID m) ≠ makeCheckSum m)) ∧
  after (IsChanged m w) =
    mkWorld (mkFileCache (filename (fc w)) (Some (table (fc w)))
               (isDirty (fc w))) (disk w).
Proof.
  destruct w as [[fn [cache|] dirty] d]; unfold IsChanged, getCache; run.
  - destruct (Nat.eqb _ 0); cbn; done.
  - by destruct rev.
Qed.

Lemma Put_run m w :
  after (Put m w) =
    mkWorld (mkFileCache (filename (fc w))
               (Some (<[GetID m := makeCheckSum m]> (table (fc w)))) true)
            (disk w).
Proof.
  destruct w as [[fn [cache|] dirty] d]; unfold Put, getCache; run;
    [done|by destruct rev].
Qed.

Lemma Get_run id w :
  result (Get id w) = index (table (fc w)) id ∧
  after (Get id w) =
    mkWorld (mkFileCache (filename (fc w)) (Some (table (fc w)))
               (isDirty (fc w))) (disk w).
Proof.
  destruct w as [[fn [cache|] dirty] d]; unfold Get, getCache; run;
    [done|by destruct rev].
Qed.

Lemma Size_run w :
  result (Size w) = Z.of_nat (size (table (fc w))) ∧
  after (Size w) =
    mkWorld (mkFileCache (filename (fc w)) (Some (table (fc w)))
               (isDirty (fc w))) (disk w).
Proof.
  destruct w as [[fn [cache|] dirty] d]; unfold Size, getCache; run;
    [done|by destruct rev].
Qed.

(** C2. Provided the check-sum function never returns the empty string:
    for every store and every entity, [IsChanged] returns true if and
    only if the table has no entry for the entity's identifier or the
    check-sum computed from the entity differs from the stored one, a
    failed computation counting as changed; and [IsChanged] leaves the
    table, the dirty flag and the files as they were. *)
Theorem IsChanged_iff (Hsum : ∀ b, SumBytes b ≠ "") m w :
  let r := IsChanged m w in
  (result r = true ↔
     table (fc w) !! GetID m = None ∨
     match encodeModel m with
     | None => True
     | Some jsonBuf => table (fc w) !! GetID m ≠ Some (SumBytes jsonBuf)
     end) ∧
  table (fc (after r)) = table (fc w) ∧
  isDirty (fc (after r)) = isDirty (fc w) ∧
  disk (after r) = disk w.
Proof.
  cbv zeta. rewrite (proj1 (IsChanged_run _ _)), (proj2 (IsChanged_run _ _)).
  cbn.
  split; [|done].
  rewrite orb_true_iff, index_empty_iff, bool_decide_eq_true.
  unfold makeCheckSum, index.
  destruct (encodeModel m) as [jsonBuf|];
    destruct (table (fc w) !! GetID m) as [saved|] eqn:E; cbn.
  - split.
    + intros [[|[= ->]]|Hne]; [done| |]; right; intros [= ?]; subst.
      * by eapply Hsum.
      * done.
    + intros [|Hne]; [done|]. right. congruence.
  - split; auto.
  - split; [auto|]. intros _.
    destruct (decide (saved = "")) as [->|]; auto.
  - split; auto.
Qed.

(** C8. When an entity has a serialisation, the entity handed to
    [IsChanged] has the same identifier and the same serialisation, and
    the check-sum of that serialisation is not the empty string, then
    [IsChanged] returns false right after [Put]. *)
Theorem IsChanged_after_Put m m' jsonBuf w :
  GetID m' = GetID m →
  encodeModel m = Some jsonBuf →
  encodeModel m' = Some jsonBuf →
  SumBytes jsonBuf ≠ "" →
  result (IsChanged m' (after (Put m w))) = false.
Proof.
  intros Hid Hm Hm' Hsum.
  rewrite (proj1 (IsChanged_run _ _)), Put_run. cbn. unfold table, index, makeCheckSum. cbn.
  rewrite Hid, lookup_insert_eq, Hm, Hm'. cbn.
  rewrite bool_decide_eq_false_2 by (by intros []).
  destruct (SumBytes jsonBuf); [done|reflexivity].
Qed.

(** C10. When the check-sum of an entity cannot be computed, [Put]
    stores the empty string under its identifier.  [Get] then returns the
    empty string for it, as it does for any identifier without an entry,
    and [IsChanged] returns true for every entity with that identifier;
    but the entry is in the table and [Size] counts it: when there was
    no entry before, [Size] is one more than before. *)
Theorem Put_failed_checksum m w (Hfail : encodeModel m = None) :
  let w' := after (Put m w) in
  table (fc w') !! GetID m = Some "" ∧
  result (Get (GetID m) w') = "" ∧
  (∀ w0 id, table (fc w0) !! id = None → result (Get id w0) = "") ∧
  (∀ m', GetID m' = GetID m → result (IsChanged m' w') = true) ∧
  result (Size w') = Z.of_nat (size (table (fc w'))) ∧
  GetID m ∈ dom (table (fc w')) ∧
  (table (fc w) !! GetID m = None →
   result (Size w') = (result (Size w) + 1)%Z).
Proof.
  cbv zeta. rewrite Put_run. unfold makeCheckSum. rewrite Hfail.
  repeat split.
  - cbn. by rewrite lookup_insert_eq.
  - rewrite (proj1 (Get_run _ _)).
    unfold index. cbn. by rewrite lookup_insert_eq.
  - intros w0 id Hnone. rewrite (proj1 (Get_run _ _)).
    unfold index. by rewrite Hnone.
  - intros m' Hid. rewrite (proj1 (IsChanged_run _ _)).
    unfold index. cbn. by rewrite Hid, lookup_insert_eq.
  - cbn. apply elem_of_dom. rewrite lookup_insert_eq. eauto.
  - intros Hnone. rewrite !(proj1 (Size_run _)). cbn.
    rewrite map_size_insert_None by done. lia.
Qed.

(** ** The operations that write the file *)

Local Arguments saveToFile : simpl never.
Local Arguments Save : simpl never.
Local Arguments Delete : simpl never.
Local Arguments Reset : simpl never.
Local Arguments Read : simpl never.
Local Arguments Put : simpl never.
Local Arguments Get : simpl never.
Local Arguments Size : simpl never.
Local Arguments IsChanged : simpl never.

(** Splits on the outcome of the durable write, once the operation
    around it is unfolded. *)
Ltac write_cases e :=
  rewrite ?saveToFile_run; unfold write_fails, fails_before_rename; cbn;
  destruct (temp_name e _ _) as [tmp|] eqn:Htmp;
  [ apply temp_name_fresh in Htmp as [Hnew Hne];
    destruct (write_err e);
    [|destruct (close_err e); [|destruct (rename_err e)]]
  |]; cbn.

(** Splits on what [Read] meets: the open, the file, the read, the
    decoder. *)
Ltac read_cases e :=
  unfold Read, readFile, OpenFile, Decode; run;
  destruct (open_err e); cbn; [|
    destruct (_ !! _); cbn;
    (destruct (read_err e); cbn; [|destruct (decodeCache _); cbn])].

Ltac open_store w :=
  let fn := fresh "fn" in let cache := fresh "cache" in
  let dirty := fresh "dirty" in let d := fresh "d" in
  destruct w as [[fn [cache|] dirty] d].

(** [Delete]: the entry goes first, then the write is tried. *)
Lemma Delete_state e id w :
  let r := Delete e id w in
  let f := filename (fc w) in
  let cache := delete id (table (fc w)) in
  if write_fails e (disk w) f then
    is_Some (result r) ∧
    fc (after r) = mkFileCache f (Some cache) true ∧
    disk (after r) !! f = disk w !! f
  else
    result r = None ∧
    fc (after r) = mkFileCache f (Some cache) false ∧
    disk (after r) = <[f := encodeCache cache]> (disk w).
Proof.
  open_store w; unfold Delete, getCache; run; destruct rev; cbn;
    write_cases e; rewrite ?lookup_insert_ne by done; eauto.
Qed.

(** [Reset]: the write of an empty table is tried first, and the table is
    replaced only when it went through. *)
Lemma Reset_state e w :
  let r := Reset e w in
  let f := filename (fc w) in
  if write_fails e (disk w) f then
    is_Some (result r) ∧
    fc (after r) = mkFileCache f (stateCache (fc w)) true ∧
    disk (after r) !! f = disk w !! f
  else
    result r = None ∧
    fc (after r) = mkFileCache f (Some ∅) false ∧
    disk (after r) = <[f := encodeCache ∅]> (disk w).
Proof.
  open_store w; unfold Reset; run; destruct rev; cbn;
    write_cases e; rewrite ?lookup_insert_ne by done; eauto.
Qed.

Lemma Save_clean e w :
  isDirty (fc w) = false → Save e w = (None, w, [EvLoadDirty]).
Proof. unfold Save. run. by intros ->. Qed.

Lemma Save_dirty e w :
  isDirty (fc w) = true →
  let r := Save e w in
  let f := filename (fc w) in
  if write_fails e (disk w) f then
    is_Some (result r) ∧
    fc (after r) = mkFileCache f (Some (table (fc w))) true ∧
    disk (after r) !! f = disk w !! f
  else
    result r = None ∧
    fc (after r) = mkFileCache f (Some (table (fc w))) false ∧
    disk (after r) = <[f := encodeCache (table (fc w))]> (disk w).
Proof.
  open_store w; cbn; intros ->; unfold Save, getCache; run; destruct rev;
    cbn; write_cases e; rewrite ?lookup_insert_ne by done; eauto.
Qed.


(** ** C3: [Delete] and [Reset] when the write fails *)


(** ** C4: the dirty flag *)

(** C4. For every operation, store and outcome of the system calls:
    [Put] stores true into the flag; [Delete] and [Reset] store true and
    then, only when their durable write returned no error, false; [Save]
    stores false when the flag was set and its durable write returned no
    error, and nothing otherwise; [IsChanged], [Get], [Size] and [Read]
    (whether the file parses or not) store nothing.  Every store of false
    comes after a rename that went through, with nothing in between but
    the chmod and, in [Reset], the replacement of the table; and the flag
    at the end is the last value stored, or the old one. *)
Theorem dirty_flag_discipline e o w :
  let r := run_op e o w in
  dirty_stores (trace r) =
    match o with
    | OpPut _ => [true]
    | OpDelete _ | OpReset =>
        true :: (if is_error (result r) then [] else [false])
    | OpSave =>
        if isDirty (fc w) && negb (is_error (result r)) then [false] else []
    | OpIsChanged _ | OpGet _ | OpSize | OpRead => []
    end ∧
  clears_follow_commit false (trace r) = true ∧
  isDirty (fc (after r)) =
    default (isDirty (fc w)) (last (dirty_stores (trace r))).
Proof.
  destruct o; unfold run_op.
  - open_store w; unfold IsChanged, getCache; run;
      try destruct (Nat.eqb _ 0); cbn; by destruct rev.
  - open_store w; unfold Put, getCache; run; by destruct rev.
  - open_store w; read_cases e; done.
  - open_store w; unfold Save, getCache; run; destruct dirty; cbn;
      try done; destruct rev; cbn; write_cases e;
      destruct rev, (chmod_err e); done.
  - open_store w; unfold Size, getCache; run; by destruct rev.
  - open_store w; unfold Get, getCache; run; by destruct rev.
  - open_store w; unfold Delete, getCache; run; destruct rev; cbn;
      write_cases e; destruct rev, (chmod_err e); done.
  - open_store w; unfold Reset; run; write_cases e;
      destruct rev, (chmod_err e); done.
Qed.

(** ** C5: [Save] writes once *)

(** The calls on files of a [Save], and its renames that went through. *)
Lemma Save_trace e w :
  let r := Save e w in
  (if isDirty (fc w) then file_io (trace r) ≠ [] else file_io (trace r) = []) ∧
  commits (trace r) =
    (if isDirty (fc w) && negb (is_error (result r)) then 1 else 0).
Proof.
  open_store w; unfold Save, getCache; run; destruct dirty; cbn;
    try done; destruct rev; cbn; write_cases e; destruct rev; done.
Qed.

(** C5. When the dirty flag is false, [Save] returns no error, calls
    nothing on files and changes nothing.  When it is true, [Save] does
    the durable write of the table: it returns an error exactly when the
    write fails, and then the flag stays set and the persisted file is as
    before; otherwise the flag is cleared and the persisted file holds
    the encoded table.  So when a [Save] returned no error, the next one,
    with no operation in between, returns no error, changes nothing and
    calls nothing on files; and two [Save]s in a row never rename more
    than once. *)
Theorem Save_idempotent e1 e2 w :
  let r1 := Save e1 w in
  let r2 := Save e2 (after r1) in
  (if isDirty (fc w) then
     file_io (trace r1) ≠ [] ∧
     is_error (result r1) = write_fails e1 (disk w) (filename (fc w)) ∧
     isDirty (fc (after r1)) = is_error (result r1) ∧
     table (fc (after r1)) = table (fc w) ∧
     persisted (after r1) =
       (if is_error (result r1) then persisted w
        else Some (encodeCache (table (fc w))))
   else r1 = (None, w, [EvLoadDirty])) ∧
  (result r1 = None →
   result r2 = None ∧ after r2 = after r1 ∧ file_io (trace r2) = []) ∧
  commits (trace r1 ++ trace r2) ≤ 1.
Proof.
  cbv zeta.
  pose proof (Save_trace e1 w) as [Hio1 Hc1].
  pose proof (Save_trace e2 (after (Save e1 w))) as [Hio2 Hc2].
  unfold commits in *. rewrite List.filter_app, length_app, Hc1, Hc2.
  clear Hc1 Hc2. unfold persisted.
  destruct (isDirty (fc w)) eqn:Hdirty.
  - pose proof (Save_dirty e1 w Hdirty) as Hs. cbv zeta in Hs.
    destruct (write_fails e1 (disk w) (filename (fc w))).
    + destruct Hs as ([err Herr] & Hfc & Hdisk).
      rewrite Herr, Hfc in *. cbn. rewrite Hdisk.
      repeat split; [done..|].
      repeat case_match; lia.
    + destruct Hs as (Hok & Hfc & Hdisk).
      rewrite Hok, Hfc in *. cbn. rewrite Hdisk, lookup_insert_eq.
      repeat split; try done;
        (rewrite Save_clean; [done|]; by rewrite Hfc).
  - rewrite (Save_clean e1 w Hdirty) in *. cbn in *.
    rewrite Hdirty in *. rewrite (Save_clean e2 w Hdirty). cbn.
    repeat split; lia.
Qed.

(** ** C6, C7: reading the file back *)

(** What [Read] does to the store, by what the file holds. *)
Lemma Read_state e w :
  let r := Read e w in
  let replaced cache :=
    mkFileCache (filename (fc w)) (Some cache) (isDirty (fc w)) in
  if open_err e || read_err e then
    is_Some (result r) ∧ fc (after r) = fc w
  else
    match decodeCache (default "" (persisted w)) with
    | DecOk cache => result r = None ∧ fc (after r) = replaced cache
    | DecEOF => result r = None ∧ fc (after r) = replaced ∅
    | DecErr => result r = Some ErrDecode ∧ fc (after r) = fc w
    end.
Proof.
  unfold persisted. open_store w; read_cases e; eauto.
Qed.

(** C6. Provided the decoder answers end-of-file on no bytes at all:
    when opening or reading the file fails, [Read] returns an error and
    leaves the store as it was; otherwise [Read] decodes the bytes of
    the persisted file (none when there is no such file) and, when they
    decode to a table, replaces the table by it and returns no error;
    when they cannot be parsed, returns an error and leaves the table as
    it was; and when there is no file or it is empty, returns no error
    and leaves an empty table.  The dirty flag is never changed. *)
Theorem Read_replaces_table (Hblank : decodeCache "" = DecEOF) e w :
  let r := Read e w in
  isDirty (fc (after r)) = isDirty (fc w) ∧
  (if open_err e || read_err e then
     is_Some (result r) ∧ stateCache (fc (after r)) = stateCache (fc w)
   else
     match decodeCache (default "" (persisted w)) with
     | DecOk cache =>
         result r = None ∧ stateCache (fc (after r)) = Some cache
     | DecEOF => result r = None ∧ stateCache (fc (after r)) = Some ∅
     | DecErr =>
         result r = Some ErrDecode ∧
         stateCache (fc (after r)) = stateCache (fc w)
     end) ∧
  (open_err e || read_err e = false →
   persisted w = None ∨ persisted w = Some "" →
   result r = None ∧ table (fc (after r)) = ∅).
Proof.
  cbv zeta. pose proof (Read_state e w) as H. cbv zeta in H.
  destruct (open_err e || read_err e).
  { destruct H as [? ->]. by repeat split. }
  assert (persisted w = None ∨ persisted w = Some "" →
          decodeCache (default "" (persisted w)) = DecEOF) as Hempty.
  { by intros [->| ->]. }
  destruct (decodeCache (default "" (persisted w))) eqn:Hdec;
    destruct H as [-> ->]; cbn; (split; [done|split; [done|]]).
  - by intros _ [=]%Hempty.
  - done.
  - by intros _ [=]%Hempty.
Qed.


(** ** C9: what runs under the lock *)

(** C9, checked on the code.  The trace of an operation keeps the lock
    discipline (everything it does to the table, the dirty flag and the
    files sits between [Lock] and the deferred [Unlock]) for [Read] and
    [Reset] always, and for [IsChanged], [Put], [Get], [Size] and
    [Delete] unless the later revision meets a nil table and replaces the
    mutex it holds.  The trace of [Save] never keeps it: [Save] reads
    the dirty flag first and takes the lock afterwards, if at all. *)
Theorem lock_discipline e o w :
  let t := trace (run_op e o w) in
  guarded t =
    match o with
    | OpSave => false
    | OpRead | OpReset => true
    | OpIsChanged _ | OpPut _ | OpGet _ | OpSize | OpDelete _ =>
        match rev, stateCache (fc w) with
        | Revised, None => false
        | _, _ => true
        end
    end ∧
  match o with
  | OpSave => head t = Some EvLoadDirty
  | _ => head t = Some EvLock
  end.
Proof.
  destruct o; unfold run_op.
  - open_store w; unfold IsChanged, getCache; run;
      try destruct (Nat.eqb _ 0); cbn; by destruct rev.
  - open_store w; unfold Put, getCache; run; by destruct rev.
  - open_store w; read_cases e; done.
  - open_store w; unfold Save, getCache; run; destruct dirty; cbn;
      try done; destruct rev; cbn; write_cases e; destruct rev; done.
  - open_store w; unfold Size, getCache; run; by destruct rev.
  - open_store w; unfold Get, getCache; run; by destruct rev.
  - open_store w; unfold Delete, getCache; run; destruct rev; cbn;
      try done; write_cases e; destruct rev; done.
  - open_store w; unfold Reset; run; write_cases e; destruct rev; done.
Qed.

(** ** More on the durable write *)

Lemma temp_name_with_chmod_err b e d f :
  temp_name (with_chmod_err b e) d f = temp_name e d f.
Proof. reflexivity. Qed.

(** X1. Whatever the outcome of [saveToFile], a file of the directory other
    than the target that was there before the call is there afterwards with
    the same contents: the temporary file never takes the name of an
    existing file. *)
Theorem saveToFile_keeps_other_files e f cache w p :
  p ≠ f →
  is_Some (disk w !! p) →
  disk (after (saveToFile e f cache w)) !! p = disk w !! p.
Proof.
  intros Hp [bytes Hbytes]. rewrite saveToFile_run.
  destruct (temp_name e (disk w) f) as [tmp|] eqn:Htmp; [|done].
  apply temp_name_fresh in Htmp as [Hnew Hne].
  assert (tmp ≠ p) by congruence.
  destruct (write_err e); [done|]. destruct (close_err e); [done|].
  destruct (rename_err e); cbn; by rewrite lookup_insert_ne.
Qed.

(** X2. When the temporary file was written and closed and only the rename
    fails, [saveToFile] returns the rename error without removing the
    temporary file: the directory then holds one file more than before,
    under a name that was free and is not the target, with the whole
    encoded table in it. *)
Theorem saveToFile_failed_rename_leaves_temp e f cache w tmp :
  temp_name e (disk w) f = Some tmp →
  write_err e = None →
  close_err e = false →
  rename_err e = true →
  let r := saveToFile e f cache w in
  result r = Some ErrRename ∧
  disk (after r) = <[tmp := encodeCache cache]> (disk w) ∧
  disk w !! tmp = None ∧
  tmp ≠ f ∧
  List.filter (λ ev, match ev with EvSys SysRemove _ _ => true | _ => false end)
    (trace r) = [].
Proof.
  intros Htmp Hw Hc Hr. cbv zeta. rewrite saveToFile_run, Htmp, Hw, Hc, Hr.
  apply temp_name_fresh in Htmp as [Hnew Hne]. done.
Qed.

(** X3. The chmod that ends [saveToFile] in the later revision never
    decides anything: with the chmod failing or not, the call returns the
    same result and leaves the same store and files.  The earlier revision
    calls no chmod at all. *)
Theorem saveToFile_chmod_is_best_effort b e f cache w :
  let r := saveToFile e f cache w in
  let r' := saveToFile (with_chmod_err b e) f cache w in
  result r' = result r ∧
  after r' = after r ∧
  (rev = Original →
   List.filter (λ ev, match ev with EvSys SysChmod _ _ => true | _ => false end)
     (trace r) = []).
Proof.
  cbv zeta. rewrite !saveToFile_run, temp_name_with_chmod_err. cbn.
  destruct (temp_name e (disk w) f) as [tmp|]; [|done].
  destruct (write_err e); [done|]. destruct (close_err e); [done|].
  destruct (rename_err e); [done|].
  repeat split. by intros ->.
Qed.

(** ** More on the table *)

(** X4. [Put] then [Get]: the identifier just put answers the check-sum
    [Put] computed, every other identifier answers what it answered before;
    and [Put] calls nothing on files and leaves them as they are. *)
Theorem Get_after_Put m id w :
  result (Get id (after (Put m w))) =
    (if decide (id = GetID m) then makeCheckSum m else result (Get id w)) ∧
  disk (after (Put m w)) = disk w ∧
  file_io (trace (Put m w)) = [].
Proof.
  rewrite !(proj1 (Get_run _ _)), Put_run. cbn. unfold index.
  split; [|split; [done|]].
  - case_decide as Hid; [subst; by rewrite lookup_insert_eq|].
    by rewrite lookup_insert_ne.
  - open_store w; unfold Put, getCache; run; by destruct rev.
Qed.

(** X5. [Size] after [Put]: one more when the identifier had no entry, the
    same when it had one (the entry is overwritten). *)
Theorem Size_after_Put m w :
  result (Size (after (Put m w))) =
    match table (fc w) !! GetID m with
    | Some _ => result (Size w)
    | None => (result (Size w) + 1)%Z
    end.
Proof.
  rewrite !(proj1 (Size_run _)), Put_run. cbn.
  destruct (table (fc w) !! GetID m) eqn:E.
  - by rewrite map_size_insert_Some.
  - rewrite map_size_insert_None by done. lia.
Qed.

(** X6. [IsChanged] after [Put]: for an entity with another identifier the
    answer is what it was before; for an entity with the identifier just
    put it is true exactly when the check-sum [Put] stored is the empty
    string or differs from the entity's check-sum. *)
Theorem IsChanged_after_Put_of m m' w :
  result (IsChanged m' (after (Put m w))) =
    if decide (GetID m' = GetID m) then
      bool_decide (makeCheckSum m = "" ∨ makeCheckSum m' ≠ makeCheckSum m)
    else result (IsChanged m' w).
Proof.
  rewrite !(proj1 (IsChanged_run _ _)), Put_run. cbn. unfold index.
  case_decide as Hid.
  - rewrite Hid, lookup_insert_eq. cbn.
    destruct (makeCheckSum m) as [|a s] eqn:E; cbn.
    + symmetry. apply bool_decide_eq_true. by left.
    + apply bool_decide_ext. split; [intros ?; right; congruence|].
      intros [[=]|?]. congruence.
  - by rewrite lookup_insert_ne.
Qed.

(** X7. After [Delete], whether its write went through or not: [Get] of the
    identifier answers the empty string and [IsChanged] answers true for
    every entity with that identifier; every other identifier answers what
    it answered before; and [Size] is one less when there was an entry, the
    same when there was none. *)
Theorem after_Delete e id w :
  let w' := after (Delete e id w) in
  result (Get id w') = "" ∧
  (∀ m, GetID m = id → result (IsChanged m w') = true) ∧
  (∀ id', id' ≠ id → result (Get id' w') = result (Get id' w)) ∧
  result (Size w') =
    match table (fc w) !! id with
    | Some _ => (result (Size w) - 1)%Z
    | None => result (Size w)
    end.
Proof.
  cbv zeta.
  assert (table (fc (after (Delete e id w))) = delete id (table (fc w)))
    as Htable.
  { pose proof (Delete_state e id w) as H. cbv zeta in H.
    destruct (write_fails e _ _); destruct H as (_ & -> & _); done. }
  rewrite !(proj1 (Get_run _ _)), !(proj1 (Size_run _)), Htable.
  unfold index. split; [by rewrite lookup_delete_eq|].
  split; [|split].
  - intros m <-. rewrite (proj1 (IsChanged_run _ _)), Htable.
    unfold index. by rewrite lookup_delete_eq.
  - intros id' Hne. rewrite !(proj1 (Get_run _ _)), Htable.
    unfold index. by rewrite lookup_delete_ne.
  - destruct (table (fc w) !! id) eqn:E.
    + rewrite map_size_delete_Some by eauto.
      assert (size (table (fc w)) ≠ 0); [|lia].
      intros Hz%map_size_empty_inv. rewrite Hz in E. by rewrite lookup_empty in E.
    + by rewrite map_size_delete_None.
Qed.

(** X8. After a [Reset] that returned no error the table is empty: [Size]
    is zero, [Get] answers the empty string and [IsChanged] answers true,
    whatever the identifier.  After a [Reset] that returned an error,
    [Size] and every [Get] answer what they answered before. *)
Theorem after_Reset e w :
  let r := Reset e w in
  match result r with
  | None =>
      result (Size (after r)) = 0%Z ∧
      (∀ id, result (Get id (after r)) = "") ∧
      (∀ m, result (IsChanged m (after r)) = true)
  | Some _ =>
      result (Size (after r)) = result (Size w) ∧
      (∀ id, result (Get id (after r)) = result (Get id w))
  end.
Proof.
  cbv zeta. pose proof (Reset_state e w) as H. cbv zeta in H.
  destruct (write_fails e _ _).
  - destruct H as ([err ->] & Hfc & _).
    split; [by rewrite !(proj1 (Size_run _)), Hfc|].
    intros id. by rewrite !(proj1 (Get_run _ _)), Hfc.
  - destruct H as (-> & Hfc & _).
    split; [by rewrite !(proj1 (Size_run _)), Hfc|]. split.
    + intros id. by rewrite !(proj1 (Get_run _ _)), Hfc.
    + intros m. by rewrite !(proj1 (IsChanged_run _ _)), Hfc.
Qed.

(** X9. A store fresh from [NewFileCache], whatever the files: it has no
    entry ([Size] is zero, [Get] answers the empty string), every entity
    is changed, and [Save] returns no error without touching any file, so
    that no state file appears before the first change. *)
Theorem NewFileCache_fresh sf d e m id :
  let w := mkWorld (NewFileCache sf) d in
  result (Size w) = 0%Z ∧
  result (Get id w) = "" ∧
  result (IsChanged m w) = true ∧
  Save e w = (None, w, [EvLoadDirty]).
Proof. cbv zeta. by rewrite Save_clean. Qed.

(** X10. [Get] and [Size] are lookups: they call nothing on files, and
    leave the table, the dirty flag and the files as they are. *)
Theorem Get_Size_only_look id w :
  let rg := Get id w in
  let rs := Size w in
  file_io (trace rg) = [] ∧ file_io (trace rs) = [] ∧
  table (fc (after rg)) = table (fc w) ∧
  table (fc (after rs)) = table (fc w) ∧
  isDirty (fc (after rg)) = isDirty (fc w) ∧
  isDirty (fc (after rs)) = isDirty (fc w) ∧
  disk (after rg) = disk w ∧ disk (after rs) = disk w.
Proof.
  cbv zeta. rewrite (proj2 (Get_run _ _)), (proj2 (Size_run _)). cbn.
  split; [|split; [|done]].
  - open_store w; unfold Get, getCache; run; by destruct rev.
  - open_store w; unfold Size, getCache; run; by destruct rev.
Qed.

(** X11. [Put] overwrites: putting two entities with the same identifier
    leaves the store as putting the second alone does (so putting an
    entity twice is putting it once), and two [Put]s with different
    identifiers give the same store in either order. *)
Theorem Put_overwrites_and_commutes m1 m2 w :
  if decide (GetID m1 = GetID m2) then
    after (Put m2 (after (Put m1 w))) = after (Put m2 w)
  else
    after (Put m2 (after (Put m1 w))) = after (Put m1 (after (Put m2 w))).
Proof.
  rewrite !Put_run. cbn. case_decide as Hid.
  - by rewrite Hid, insert_insert_eq.
  - by rewrite insert_insert_ne.
Qed.

(** ** More on writing and reading back *)

(** X12. A [Delete] whose write failed is mended by the next [Save]: the
    flag was left set, so a [Save] that returns no error writes the table
    without the entry, and clears the flag. *)
Theorem Save_after_failed_Delete e1 e2 id w :
  let r1 := Delete e1 id w in
  let r2 := Save e2 (after r1) in
  is_Some (result r1) →
  result r2 = None →
  table (fc (after r2)) = delete id (table (fc w)) ∧
  persisted (after r2) = Some (encodeCache (delete id (table (fc w)))) ∧
  isDirty (fc (after r2)) = false.
Proof.
  cbv zeta. intros [err Herr] Hsaved.
  pose proof (Delete_state e1 id w) as Hd. cbv zeta in Hd.
  destruct (write_fails e1 _ _); [|destruct Hd as [? _]; congruence].
  destruct Hd as (_ & Hfc & _).
  assert (isDirty (fc (after (Delete e1 id w))) = true) as Hdirty
    by by rewrite Hfc.
  pose proof (Save_dirty e2 _ Hdirty) as Hs. cbv zeta in Hs.
  rewrite Hfc in Hs. cbn in Hs.
  destruct (write_fails e2 _ _).
  { destruct Hs as ([? ?] & _). congruence. }
  destruct Hs as (_ & Hfc2 & Hdisk2). unfold persisted.
  rewrite Hfc2. cbn. by rewrite Hdisk2, lookup_insert_eq.
Qed.

(** X13. After a [Reset] whose write failed the table is the old one and
    the flag is set, so a [Save] that returns no error writes the old
    table back, not an empty one. *)
Theorem Save_after_failed_Reset e1 e2 w :
  let r1 := Reset e1 w in
  let r2 := Save e2 (after r1) in
  is_Some (result r1) →
  result r2 = None →
  table (fc (after r2)) = table (fc w) ∧
  persisted (after r2) = Some (encodeCache (table (fc w))) ∧
  isDirty (fc (after r2)) = false.
Proof.
  cbv zeta. intros [err Herr] Hsaved.
  pose proof (Reset_state e1 w) as Hd. cbv zeta in Hd.
  destruct (write_fails e1 _ _); [|destruct Hd as [? _]; congruence].
  destruct Hd as (_ & Hfc & _).
  assert (isDirty (fc (after (Reset e1 w))) = true) as Hdirty
    by by rewrite Hfc.
  pose proof (Save_dirty e2 _ Hdirty) as Hs. cbv zeta in Hs.
  rewrite Hfc in Hs. cbn in Hs.
  destruct (write_fails e2 _ _).
  { destruct Hs as ([? ?] & _). congruence. }
  destruct Hs as (_ & Hfc2 & Hdisk2). unfold persisted.
  rewrite Hfc2. cbn. by rewrite Hdisk2, lookup_insert_eq.
Qed.

(** What [Read] does to the files. *)
Lemma Read_disk e w :
  disk (after (Read e w)) =
    if open_err e then disk w
    else match persisted w with
         | Some _ => disk w
         | None => <[filename (fc w) := ""]> (disk w)
         end.
Proof. unfold persisted. open_store w; read_cases e; done. Qed.

Lemma Read_filename e w : filename (fc (after (Read e w))) = filename (fc w).
Proof. open_store w; read_cases e; done. Qed.

(** The bytes a reader finds are the same after a [Read]. *)
Lemma Read_persisted e w :
  default "" (persisted (after (Read e w))) = default "" (persisted w).
Proof.
  unfold persisted at 1. rewrite Read_filename, Read_disk.
  destruct (open_err e); [done|]. unfold persisted.
  destruct (disk w !! filename (fc w)) eqn:E; [by rewrite E|].
  by rewrite lookup_insert_eq.
Qed.

(** X14. [Read] opens the file with O_CREATE: when the open works and
    there is no state file, an empty one is there afterwards; a state file
    that is there is never changed, and no other file ever is.  When the
    open fails the files are as before. *)
Theorem Read_creates_missing_file e w :
  let r := Read e w in
  persisted (after r) =
    (if open_err e then persisted w else Some (default "" (persisted w))) ∧
  (∀ p, p ≠ filename (fc w) → disk (after r) !! p = disk w !! p).
Proof.
  cbv zeta. unfold persisted at 1. rewrite Read_filename, Read_disk.
  unfold persisted. destruct (open_err e); [done|].
  destruct (disk w !! filename (fc w)) eqn:E.
  - by rewrite E.
  - rewrite lookup_insert_eq. split; [done|].
    intros p Hp. by rewrite lookup_insert_ne.
Qed.

(** X15. After a [Delete] that returned no error, a store object over the
    same file name and files whose [Read] returns no error has no entry
    for the identifier any more, provided the encoded table decodes to
    itself. *)
Theorem Delete_Read_roundtrip e1 e2 id w (restarted : FileCache) :
  let r1 := Delete e1 id w in
  let r2 := Read e2 (mkWorld restarted (disk (after r1))) in
  filename restarted = filename (fc w) →
  result r1 = None →
  result r2 = None →
  decodeCache (encodeCache (delete id (table (fc w))))
    = DecOk (delete id (table (fc w))) →
  table (fc (after r2)) = delete id (table (fc w)) ∧
  result (Get id (after r2)) = "".
Proof.
  cbv zeta. intros Hname Hdel Hread Hcodec.
  pose proof (Delete_state e1 id w) as Hd. cbv zeta in Hd.
  destruct (write_fails e1 _ _).
  { destruct Hd as ([? ?] & _). congruence. }
  destruct Hd as (_ & _ & Hdisk).
  match type of Hread with result (Read e2 ?w2) = _ =>
    pose proof (Read_state e2 w2) as Hr end.
  cbv zeta in Hr.
  destruct (open_err e2 || read_err e2).
  { destruct Hr as ([? ?] & _). congruence. }
  unfold persisted in Hr. cbn in Hr.
  rewrite Hdisk, Hname, lookup_insert_eq in Hr. cbn in Hr.
  rewrite Hcodec in Hr. destruct Hr as [_ Hfc]. rewrite Hdisk.
  rewrite (proj1 (Get_run _ _)), Hfc. cbn. unfold index.
  by rewrite lookup_delete_eq.
Qed.

(** ** The dirty flag is honest *)

Lemma after_bind_ret {A B} (m : M A) (b : B) w :
  after (bind m (λ _, ret b) w) = after (m w).
Proof. unfold after, bind, ret. by destruct (m w) as [[? ?] ?]. Qed.

Lemma clean_matches_looked w :
  clean_matches w →
  clean_matches
    (mkWorld (mkFileCache (filename (fc w)) (Some (table (fc w)))
                (isDirty (fc w))) (disk w)).
Proof. done. Qed.

Lemma clean_matches_written fn cache d :
  decodeCache (encodeCache cache) = DecOk cache →
  clean_matches
    (mkWorld (mkFileCache fn (Some cache) false)
       (<[fn := encodeCache cache]> d)).
Proof.
  intros Hcodec _. unfold loads, persisted. cbn.
  by rewrite lookup_insert_eq; cbn; rewrite Hcodec.
Qed.

Lemma clean_matches_dirty w : isDirty (fc w) = true → clean_matches w.
Proof. intros H. unfold clean_matches. by rewrite H. Qed.

(** X16. Call the flag honest when, the flag being clear, the persisted
    file reads back as the table in memory (no file and an empty file
    reading as the empty table).  Every operation keeps the flag honest,
    whatever fails, provided the table it writes, when it writes one,
    decodes to itself. *)
Theorem clean_matches_kept e o w :
  (∀ cache, written o w = Some cache →
            decodeCache (encodeCache cache) = DecOk cache) →
  clean_matches w →
  clean_matches (after (run_op e o w)).
Proof.
  intros Hcodec Hclean. destruct o; unfold run_op; cbn in Hcodec.
  - rewrite after_bind_ret, (proj2 (IsChanged_run _ _)).
    by apply clean_matches_looked.
  - rewrite after_bind_ret, Put_run. by apply clean_matches_dirty.
  - pose proof (Read_state e w) as H. cbv zeta in H.
    unfold clean_matches, loads in *. rewrite Read_persisted.
    destruct (open_err e || read_err e).
    { destruct H as [_ ->]. done. }
    destruct (decodeCache (default "" (persisted w)));
      destruct H as [_ ->]; cbn; done.
  - destruct (isDirty (fc w)) eqn:Hdirty.
    + pose proof (Save_dirty e w Hdirty) as H. cbv zeta in H.
      destruct (write_fails e _ _).
      * apply clean_matches_dirty. by destruct H as (_ & -> & _).
      * destruct H as (_ & Hfc & Hdisk).
        destruct (after (Save e w)) as [c d]. cbn in *. subst.
        apply clean_matches_written. by apply Hcodec.
    + by rewrite Save_clean.
  - rewrite after_bind_ret, (proj2 (Size_run _)).
    by apply clean_matches_looked.
  - rewrite after_bind_ret, (proj2 (Get_run _ _)).
    by apply clean_matches_looked.
  - pose proof (Delete_state e id w) as H. cbv zeta in H.
    destruct (write_fails e _ _).
    * apply clean_matches_dirty. by destruct H as (_ & -> & _).
    * destruct H as (_ & Hfc & Hdisk).
      destruct (after (Delete e id w)) as [c d]. cbn in *. subst.
      apply clean_matches_written. by apply Hcodec.
  - pose proof (Reset_state e w) as H. cbv zeta in H.
    destruct (write_fails e _ _).
    * apply clean_matches_dirty. by destruct H as (_ & -> & _).
    * destruct H as (_ & Hfc & Hdisk).
      destruct (after (Reset e w)) as [c d]. cbn in *. subst.
      apply clean_matches_written. by apply Hcodec.
Qed.


(** ** [Dump] and [WriteTo] *)



(** X18. [Dump] hands back the bytes of the persisted file as they are
    (none when there was no file, which the open then creates, empty),
    unless the open, the stat or the copy fails, in that order.  It never
    touches the store object, changes no file that is there, and does all
    of it under the lock. *)
Theorem Dump_returns_file e stat_err w :
  let r := Dump e stat_err w in
  result r =
    (if open_err e then inl DumpOpen
     else if stat_err then inl DumpStat
     else if read_err e then inl DumpCopy
     else inr (default "" (persisted w))) ∧
  fc (after r) = fc w ∧
  disk (after r) =
    (if open_err e then disk w
     else match persisted w with
          | Some _ => disk w
          | None => <[filename (fc w) := ""]> (disk w)
          end) ∧
  guarded (trace r) = true.
Proof.
  unfold persisted.
  open_store w; unfold Dump, OpenFile, Stat, CopyToBuffer; run;
    destruct (open_err e); cbn; try done;
    destruct (_ !! _); cbn; destruct stat_err; cbn; try done;
    destruct (read_err e); done.
Qed.

Local Arguments Nat.ltb : simpl never.


(** X20. After a [Save] of a dirty store that returned no error, [Dump]
    and [WriteTo], when nothing fails, both deliver the bytes of the
    encoded table, and [WriteTo] counts them all. *)
Theorem Dump_WriteTo_after_Save e1 e2 w :
  let w1 := after (Save e1 w) in
  isDirty (fc w) = true →
  result (Save e1 w) = None →
  open_err e2 = false →
  read_err e2 = false →
  result (Dump e2 false w1) = inr (encodeCache (table (fc w))) ∧
  result (WriteTo e2 None w1) =
    (encodeCache (table (fc w)),
     Z.of_nat (String.length (encodeCache (table (fc w)))), None).
Proof.
  cbv zeta. intros Hdirty Hsaved Hopen Hread.
  pose proof (Save_dirty e1 w Hdirty) as Hs. cbv zeta in Hs.
  destruct (write_fails e1 _ _).
  { destruct Hs as ([? ?] & _). congruence. }
  destruct Hs as (_ & Hfc & Hdisk).
  destruct (after (Save e1 w)) as [c d]. cbn in Hfc, Hdisk. subst c d.
  unfold Dump, WriteTo, OpenFile, Stat, CopyToBuffer, CopyToWriter; run.
  rewrite Hopen, Hread. cbn. rewrite lookup_insert_eq. cbn.
  rewrite ?Hread. done.
Qed.

End FileCacher.

(** ** The operations on concrete stores *)

Lemma Demo_SumBytes_nonempty (b : string) : Demo.SumBytes b ≠ "".
Proof. apply pretty_N_nonempty. Qed.

Abbreviation demo_IsChanged :=
  (IsChanged Revised Demo.GetID Demo.encodeModel Demo.SumBytes).
Abbreviation demo_Put :=
  (Put Revised Demo.GetID Demo.encodeModel Demo.SumBytes).
Abbreviation demo_Save := (Save Revised Demo.encodeCache).
Abbreviation demo_Delete := (Delete Revised Demo.encodeCache).
Abbreviation demo_Reset := (Reset Revised Demo.encodeCache).
Abbreviation demo_Read := (Read Demo.decodeCache).
Abbreviation demo_run :=
  (run_op Revised Demo.GetID Demo.encodeModel Demo.SumBytes
     Demo.encodeCache Demo.decodeCache).

(** The scenario of the specification: an empty store; put A (v1);
    A (v1) is not changed, A (v2) is; save; one entry; delete A; no entry,
    and the persisted file holds the empty table. *)
Example scenario :
  let w0 := mkWorld (NewFileCache "state") ∅ in
  let w1 := after (demo_Put Demo.cardA w0) in
  let r2 := demo_Save Demo.calm w1 in
  let r3 := demo_Delete Demo.calm "A" (after r2) in
  result (demo_IsChanged Demo.cardA w1) = false ∧
  result (demo_IsChanged Demo.cardA' w1) = true ∧
  result r2 = None ∧
  result (Size Revised (after r2)) = 1%Z ∧
  result r3 = None ∧
  result (Size Revised (after r3)) = 0%Z ∧
  option_map Demo.decodeCache (persisted (after r3)) = Some (DecOk ∅).
Proof. vm_compute. repeat split; reflexivity. Qed.

Lemma saveToFile_atomic_witness :
  let r := saveToFile Revised Demo.encodeCache Demo.short_write "state"
             {["A" := "17"]} Demo.one_entry in
  fails_before_rename Demo.short_write ∅ "state" = true ∧
  is_Some (result r) ∧ disk (after r) = ∅ ∧ commits (trace r) = 0.
Proof.
  pose proof (saveToFile_atomic Revised Demo.encodeCache Demo.short_write
                "state" {["A" := "17"]} Demo.one_entry) as [_ H].
  cbv zeta. split; [reflexivity|].
  change (fails_before_rename Demo.short_write (disk Demo.one_entry) "state")
    with true in H.
  destruct H as (H1 & H2 & _ & H4).
  split; [exact H1|]. split; [exact H2|exact H4].
Defined.

Lemma IsChanged_iff_witness :
  (∀ b, Demo.SumBytes b ≠ "") ∧
  result (demo_IsChanged Demo.cardA' Demo.one_entry) = true ∧
  table (fc (after (demo_IsChanged Demo.cardA' Demo.one_entry)))
    = {["A" := "17"]}.
Proof.
  split; [exact Demo_SumBytes_nonempty|].
  destruct (IsChanged_iff Revised Demo.GetID Demo.encodeModel Demo.SumBytes
              Demo_SumBytes_nonempty Demo.cardA' Demo.one_entry)
    as (Hiff & Htable & _).
  split; [|exact Htable].
  apply Hiff. right. vm_compute. intros [=].
Defined.

Lemma IsChanged_after_Put_witness :
  Demo.GetID Demo.cardA = Demo.GetID Demo.cardA ∧
  Demo.encodeModel Demo.cardA = Some "{A:v1}" ∧
  Demo.SumBytes "{A:v1}" ≠ "" ∧
  result (demo_IsChanged Demo.cardA
            (after (demo_Put Demo.cardA Demo.one_entry))) = false.
Proof.
  split; [reflexivity|]. split; [reflexivity|].
  split; [apply Demo_SumBytes_nonempty|].
  apply (IsChanged_after_Put Revised Demo.GetID Demo.encodeModel
           Demo.SumBytes Demo.cardA Demo.cardA "{A:v1}" Demo.one_entry);
    [reflexivity|reflexivity|reflexivity|apply Demo_SumBytes_nonempty].
Defined.

Lemma Put_failed_checksum_witness :
  let w' := after (demo_Put Demo.cardX Demo.one_entry) in
  Demo.encodeModel Demo.cardX = None ∧
  table (fc w') !! "X" = Some "" ∧
  result (Get Revised "X" w') = "" ∧
  result (demo_IsChanged Demo.cardX w') = true ∧
  result (Size Revised w') = (result (Size Revised Demo.one_entry) + 1)%Z.
Proof.
  cbv zeta. split; [reflexivity|].
  destruct (Put_failed_checksum Revised Demo.GetID Demo.encodeModel
              Demo.SumBytes Demo.cardX Demo.one_entry eq_refl)
    as (Hentry & Hget & _ & Hchanged & _ & _ & Hsize).
  split; [exact Hentry|]. split; [exact Hget|].
  split; [by apply Hchanged|]. apply Hsize. reflexivity.
Defined.



Lemma Save_idempotent_witness :
  let w1 := after (demo_Put Demo.cardA Demo.one_entry) in
  let r1 := demo_Save Demo.calm w1 in
  let r2 := demo_Save Demo.short_write (after r1) in
  result r1 = None ∧
  result r2 = None ∧ after r2 = after r1 ∧ file_io (trace r2) = [] ∧
  commits (trace r1 ++ trace r2) ≤ 1.
Proof.
  cbv zeta.
  pose proof (Save_idempotent Revised Demo.encodeCache Demo.calm
                Demo.short_write
                (after (demo_Put Demo.cardA Demo.one_entry)))
    as (_ & Hsecond & Hcommits).
  assert (result (demo_Save Demo.calm
                    (after (demo_Put Demo.cardA Demo.one_entry))) = None)
    as Hfirst by (vm_compute; reflexivity).
  destruct (Hsecond Hfirst) as (H1 & H2 & H3).
  split; [exact Hfirst|]. split; [exact H1|]. split; [exact H2|].
  split; [exact H3|exact Hcommits].
Defined.

Lemma Read_replaces_table_witness :
  let r := demo_Read Demo.calm Demo.one_entry in
  Demo.decodeCache "" = DecEOF ∧
  persisted Demo.one_entry = None ∧
  result r = None ∧ table (fc (after r)) = ∅ ∧
  isDirty (fc (after r)) = isDirty (fc Demo.one_entry).
Proof.
  cbv zeta.
  pose proof (Read_replaces_table Demo.decodeCache eq_refl Demo.calm
                Demo.one_entry) as (Hdirty & _ & Hempty).
  destruct (Hempty eq_refl (or_introl eq_refl)) as [Hres Htable].
  split; [reflexivity|]. split; [reflexivity|]. split; [exact Hres|].
  split; [exact Htable|exact Hdirty].
Defined.


(** [Save] on a clean store does not take the lock at all, and on a dirty
    store it takes it after having read the flag. *)
Example Save_reads_flag_before_lock :
  trace (demo_Save Demo.calm Demo.one_entry) = [EvLoadDirty] ∧
  take 2 (trace (demo_Save Demo.calm
                   (after (demo_Put Demo.cardA Demo.one_entry))))
    = [EvLoadDirty; EvLock].
Proof. vm_compute. split; reflexivity. Qed.

(** ** More runs on concrete stores *)

Lemma saveToFile_keeps_other_files_witness :
  let r := saveToFile Revised Demo.encodeCache Demo.no_rename "state"
             {["A" := "17"]} Demo.beside_notes in
  "notes" ≠ "state" ∧
  is_Some (disk Demo.beside_notes !! "notes") ∧
  disk (after r) !! "notes" = Some "hello".
Proof.
  cbv zeta.
  assert ("notes" ≠ "state") as Hne by (intros [=]).
  assert (is_Some (disk Demo.beside_notes !! "notes")) as Hthere
    by (exists "hello"; reflexivity).
  split; [exact Hne|]. split; [exact Hthere|].
  exact (saveToFile_keeps_other_files Revised Demo.encodeCache
           Demo.no_rename "state" {["A" := "17"]} Demo.beside_notes "notes"
           Hne Hthere).
Defined.

Lemma saveToFile_failed_rename_leaves_temp_witness :
  let r := saveToFile Revised Demo.encodeCache Demo.no_rename "state"
             {["A" := "17"]} Demo.beside_notes in
  temp_name Demo.no_rename (disk Demo.beside_notes) "state" = Some "state7" ∧
  result r = Some ErrRename ∧
  disk (after r) =
    <["state7" := Demo.encodeCache {["A" := "17"]}]> (disk Demo.beside_notes).
Proof.
  cbv zeta.
  assert (temp_name Demo.no_rename (disk Demo.beside_notes) "state"
          = Some "state7") as Htmp by reflexivity.
  destruct (saveToFile_failed_rename_leaves_temp Revised Demo.encodeCache
              Demo.no_rename "state" {["A" := "17"]} Demo.beside_notes
              "state7" Htmp eq_refl eq_refl eq_refl)
    as (Hres & Hdisk & _).
  split; [exact Htmp|]. split; [exact Hres|exact Hdisk].
Defined.

Lemma Save_after_failed_Delete_witness :
  let r1 := demo_Delete Demo.no_temp "A" Demo.one_entry in
  let r2 := demo_Save Demo.calm (after r1) in
  result r1 = Some ErrTempFile ∧
  result r2 = None ∧
  persisted (after r2) = Some (Demo.encodeCache ∅) ∧
  isDirty (fc (after r2)) = false.
Proof.
  cbv zeta.
  assert (result (demo_Delete Demo.no_temp "A" Demo.one_entry)
          = Some ErrTempFile) as H1 by (vm_compute; reflexivity).
  assert (result (demo_Save Demo.calm
            (after (demo_Delete Demo.no_temp "A" Demo.one_entry))) = None)
    as H2 by (vm_compute; reflexivity).
  destruct (Save_after_failed_Delete Revised Demo.encodeCache Demo.no_temp
              Demo.calm "A" Demo.one_entry
              (ex_intro _ ErrTempFile H1) H2) as (_ & Hfile & Hflag).
  split; [exact H1|]. split; [exact H2|]. split; [exact Hfile|exact Hflag].
Defined.

Lemma Save_after_failed_Reset_witness :
  let r1 := demo_Reset Demo.no_temp Demo.one_entry in
  let r2 := demo_Save Demo.calm (after r1) in
  result r1 = Some ErrTempFile ∧
  result r2 = None ∧
  persisted (after r2) = Some (Demo.encodeCache {["A" := "17"]}) ∧
  isDirty (fc (after r2)) = false.
Proof.
  cbv zeta.
  assert (result (demo_Reset Demo.no_temp Demo.one_entry)
          = Some ErrTempFile) as H1 by (vm_compute; reflexivity).
  assert (result (demo_Save Demo.calm
            (after (demo_Reset Demo.no_temp Demo.one_entry))) = None)
    as H2 by (vm_compute; reflexivity).
  destruct (Save_after_failed_Reset Revised Demo.encodeCache Demo.no_temp
              Demo.calm Demo.one_entry
              (ex_intro _ ErrTempFile H1) H2) as (_ & Hfile & Hflag).
  split; [exact H1|]. split; [exact H2|]. split; [exact Hfile|exact Hflag].
Defined.

Lemma Delete_Read_roundtrip_witness :
  let r1 := demo_Delete Demo.calm "A" Demo.one_entry in
  let r2 := demo_Read Demo.calm
              (mkWorld (NewFileCache "state") (disk (after r1))) in
  result r1 = None ∧
  result r2 = None ∧
  Demo.decodeCache (Demo.encodeCache (delete "A" (table (fc Demo.one_entry))))
    = DecOk (delete "A" (table (fc Demo.one_entry))) ∧
  result (Get Revised "A" (after r2)) = "".
Proof.
  cbv zeta.
  assert (result (demo_Delete Demo.calm "A" Demo.one_entry) = None) as H1
    by (vm_compute; reflexivity).
  assert (result (demo_Read Demo.calm
            (mkWorld (NewFileCache "state")
               (disk (after (demo_Delete Demo.calm "A" Demo.one_entry)))))
          = None) as H2 by (vm_compute; reflexivity).
  assert (Demo.decodeCache
            (Demo.encodeCache (delete "A" (table (fc Demo.one_entry))))
          = DecOk (delete "A" (table (fc Demo.one_entry)))) as H3
    by (vm_compute; reflexivity).
  destruct (Delete_Read_roundtrip Revised Demo.encodeCache Demo.decodeCache
              Demo.calm Demo.calm "A" Demo.one_entry (NewFileCache "state")
              eq_refl H1 H2 H3) as [_ Hget].
  split; [exact H1|]. split; [exact H2|]. split; [exact H3|exact Hget].
Defined.

Lemma clean_matches_kept_witness :
  (∀ cache, written (OpDelete (Model := Demo.Card) "A") Demo.synced
              = Some cache →
            Demo.decodeCache (Demo.encodeCache cache) = DecOk cache) ∧
  clean_matches Demo.decodeCache Demo.synced ∧
  clean_matches Demo.decodeCache
    (after (demo_run Demo.calm (OpDelete "A") Demo.synced)).
Proof.
  assert (∀ cache, written (OpDelete (Model := Demo.Card) "A") Demo.synced
                     = Some cache →
                   Demo.decodeCache (Demo.encodeCache cache) = DecOk cache)
    as Hcodec.
  { intros cache [= <-]. vm_compute. reflexivity. }
  assert (clean_matches Demo.decodeCache Demo.synced) as Hclean.
  { intros _. vm_compute. reflexivity. }
  split; [exact Hcodec|]. split; [exact Hclean|].
  exact (clean_matches_kept Revised Demo.GetID Demo.encodeModel
           Demo.SumBytes Demo.encodeCache Demo.decodeCache Demo.calm
           (OpDelete "A") Demo.synced Hcodec Hclean).
Defined.

Lemma Dump_WriteTo_after_Save_witness :
  let w := after (demo_Put Demo.cardA Demo.one_entry) in
  let w1 := after (demo_Save Demo.calm w) in
  isDirty (fc w) = true ∧
  result (demo_Save Demo.calm w) = None ∧
  result (Dump Demo.calm false w1) = inr (Demo.encodeCache (table (fc w))) ∧
  (result (WriteTo Demo.calm None w1)).1.1 = Demo.encodeCache (table (fc w)).
Proof.
  cbv zeta.
  assert (result (demo_Save Demo.calm
                    (after (demo_Put Demo.cardA Demo.one_entry))) = None)
    as Hsaved by (vm_compute; reflexivity).
  destruct (Dump_WriteTo_after_Save Revised Demo.encodeCache Demo.calm
              Demo.calm (after (demo_Put Demo.cardA Demo.one_entry))
              eq_refl Hsaved eq_refl eq_refl) as [Hdump Hwrite].
  split; [reflexivity|]. split; [exact Hsaved|]. split; [exact Hdump|].
  by rewrite Hwrite.
Defined.
